(** * static-once: a shallow embedding of [src/lib.rs]

    The crate offers a [StaticCell<T>] (an [UnsafeCell<MaybeUninit<T>>]
    living in a static), the [StaticInit] trait that binds a guarded type
    [B] to its cell through the associated constant [HOLDER], the unsafe
    entry point [StaticInit::init], and the zero-sized, [Copy] proof
    [Inited<B>] whose [get] dereferences [B::HOLDER] without any check.

    Modelling choices:
    - a static address is a [nat] ([loc]); a guarded type is named by a
      [nat] ([ty]); [HOLDER] maps a guarded type to the address of its cell;
    - memory maps each address to a [MaybeUninit] value ([option V]); every
      static starts as [StaticCell::new()], i.e. uninitialised;
    - a reference returned by [get] is the address it points to; reading
      through it is [load];
    - [assume_init_ref] on an uninitialised slot is undefined behaviour,
      written [UB]: it is not a value the Rust code can observe or handle. *)

From Stdlib Require Import List Bool Arith Lia.
Import ListNotations.

(** Outcome of an operation whose contract may be violated. *)
Inductive ub (A : Type) : Type :=
| Def (a : A)
| UB.
Arguments Def {A} a.
Arguments UB {A}.

Module StaticOnce.

Definition loc := nat.
Definition ty := nat.

Section Model.

Context {V : Type}.

(** [const HOLDER: &'static StaticCell<Self::Item>] of each [impl StaticInit]. *)
Variable HOLDER : ty -> loc.

(** [MaybeUninit<T>]: [None] is the uninitialised slot. *)
Definition MaybeUninit := option V.

(** The statics of the program, by address. *)
Definition mem := loc -> MaybeUninit.

(** [StaticCell::new]: [UnsafeCell::new(MaybeUninit::uninit())]. *)
Definition StaticCell_new : MaybeUninit := None.

(** Program start: every [static ...: StaticCell<_> = StaticCell::new()]. *)
Definition empty_mem : mem := fun _ => StaticCell_new.

Definition upd (m : mem) (l : loc) (c : MaybeUninit) : mem :=
  fun l' => if Nat.eqb l' l then c else m l'.

(** [StaticCell::get]: [( *self.value.get()).assume_init_ref()]; the
    reference is the cell's own address. *)
Definition StaticCell_get (m : mem) (l : loc) : ub loc :=
  match m l with
  | Some _ => Def l
  | None => UB
  end.

(** [StaticCell::set]: [( *self.value.get()).write(value)]; no check of any
    kind, the slot is overwritten whatever it held. *)
Definition StaticCell_set (m : mem) (l : loc) (v : V) : mem :=
  upd m l (Some v).

(** Reading through a reference [&T] at address [l]. *)
Definition load (m : mem) (l : loc) : option V := m l.

(** [Inited<B> { _marker: PhantomData<B> }]: no data, only the type [B]. *)
Inductive Inited (B : ty) : Type :=
| mk_Inited.
Arguments mk_Inited {B}.

(** [#[derive(Copy, Clone)]]: cloning copies the (empty) marker. *)
Definition Inited_clone {B : ty} (p : Inited B) : Inited B :=
  match p with mk_Inited => mk_Inited end.

(** [StaticInit::init]: [Self::HOLDER.set(value); Inited { _marker }]. *)
Definition init (B : ty) (v : V) (m : mem) : mem * Inited B :=
  (StaticCell_set m (HOLDER B) v, mk_Inited).

(** [Inited::get]: [unsafe { B::HOLDER.get() }]; the proof value itself is
    not inspected. *)
Definition Inited_get {B : ty} (p : Inited B) (m : mem) : ub loc :=
  StaticCell_get m (HOLDER B).

(** A straight-line use of the API, one call per operation. *)
Inductive op : Type :=
| OSet (l : loc) (v : V)      (* unsafe { cell.set(v) } *)
| OInit (B : ty) (v : V)      (* unsafe { B::init(v) } *)
| OCellGet (l : loc)          (* unsafe { cell.get() } *)
| OProofGet (B : ty).         (* proof.get() on some Inited<B> *)

Definition step (m : mem) (o : op) : ub mem :=
  match o with
  | OSet l v => Def (StaticCell_set m l v)
  | OInit B v => Def (fst (init B v m))
  | OCellGet l =>
      match StaticCell_get m l with Def _ => Def m | UB => UB end
  | OProofGet B =>
      match Inited_get (@mk_Inited B) m with Def _ => Def m | UB => UB end
  end.

Fixpoint run (m : mem) (ops : list op) : ub mem :=
  match ops with
  | [] => Def m
  | o :: rest =>
      match step m o with
      | Def m' => run m' rest
      | UB => UB
      end
  end.

(** Does an operation write the slot at [l]? *)
Definition writes_to (l : loc) (o : op) : bool :=
  match o with
  | OSet l' _ => Nat.eqb l' l
  | OInit B _ => Nat.eqb (HOLDER B) l
  | OCellGet _ | OProofGet _ => false
  end.

Definition is_get (o : op) : bool :=
  match o with
  | OCellGet _ | OProofGet _ => true
  | OSet _ _ | OInit _ _ => false
  end.

End Model.

Arguments mk_Inited {B}.


(** ** Items of a crate that uses the API

    What the Rust compiler checks about [StaticInit] in a client crate:
    the coherence rule (at most one [impl StaticInit for B] per type [B],
    error E0119) and method resolution (a call [B::init(v)] needs such an
    impl).  In [lib.rs], [init] is a provided trait method: a call to it
    is an expression and attaches no implementation of any trait. *)
Section Items.

Context {V : Type}.

Inductive item : Type :=
| ImplStaticInit (B : ty) (holder : loc)   (* impl StaticInit for B { const HOLDER = &holder } *)
| CallInit (B : ty) (v : V).               (* unsafe { B::init(v) } *)

Definition impl_tys (items : list item) : list ty :=
  flat_map (fun i => match i with ImplStaticInit B _ => [B] | CallInit _ _ => [] end) items.

Definition init_calls (items : list item) : list ty :=
  flat_map (fun i => match i with CallInit B _ => [B] | ImplStaticInit _ _ => [] end) items.

Fixpoint nodupb (l : list nat) : bool :=
  match l with
  | [] => true
  | x :: r => negb (existsb (Nat.eqb x) r) && nodupb r
  end.

Definition compiles (items : list item) : bool :=
  nodupb (impl_tys items) &&
  forallb (fun B => existsb (Nat.eqb B) (impl_tys items)) (init_calls items).

End Items.

(** ** Properties *)
Section Proofs.

Context {V : Type}.
Variable HOLDER : ty -> loc.

Lemma upd_same (m : @mem V) l c : upd m l c l = c.
Proof. unfold upd. now rewrite Nat.eqb_refl. Qed.

Lemma upd_other (m : @mem V) l l' c : l' <> l -> upd m l c l' = m l'.
Proof. intros H. unfold upd. apply Nat.eqb_neq in H. now rewrite H. Qed.

Lemma step_get_pure (m m' : @mem V) o :
  is_get o = true -> step HOLDER m o = Def m' -> m' = m.
Proof.
  destruct o as [l v|B v|l|B]; simpl; try discriminate; intros _.
  - destruct (StaticCell_get m l); congruence.
  - destruct (Inited_get HOLDER (@mk_Inited B) m); congruence.
Qed.

Lemma step_frame (m m' : @mem V) o l :
  writes_to HOLDER l o = false -> step HOLDER m o = Def m' -> m' l = m l.
Proof.
  intros Hw Hs. destruct (is_get o) eqn:Hg.
  - now rewrite (step_get_pure m m' o Hg Hs).
  - destruct o as [l' v|B v|l'|B]; simpl in *; try discriminate;
      inversion Hs; subst; clear Hs;
      unfold StaticCell_set; apply upd_other; apply Nat.eqb_neq in Hw; auto.
Qed.

Lemma run_frame (ops : list (@op V)) l : forall (m m' : @mem V),
  forallb (fun o => negb (writes_to HOLDER l o)) ops = true ->
  run HOLDER m ops = Def m' -> m' l = m l.
Proof.
  induction ops as [|o rest IH]; simpl; intros m m' Hw Hr.
  - congruence.
  - apply andb_true_iff in Hw as [Ho Hrest]. apply negb_true_iff in Ho.
    destruct (step HOLDER m o) as [m1|] eqn:Hs; [|discriminate].
    rewrite (IH m1 m' Hrest Hr). exact (step_frame m m1 o l Ho Hs).
Qed.

Lemma step_keeps_init (m m' : @mem V) o l :
  m l <> None -> step HOLDER m o = Def m' -> m' l <> None.
Proof.
  intros Hl Hs. destruct (is_get o) eqn:Hg.
  - now rewrite (step_get_pure m m' o Hg Hs).
  - destruct o as [l' v|B v|l'|B]; simpl in *; try discriminate;
      inversion Hs; subst; clear Hs; unfold StaticCell_set, upd;
      [destruct (Nat.eqb l l') | destruct (Nat.eqb l (HOLDER B))]; congruence.
Qed.

(** [StaticCell::set] then [StaticCell::get] on the same cell. *)
Lemma set_get (m : @mem V) l v :
  StaticCell_get (StaticCell_set m l v) l = Def l /\
  load (StaticCell_set m l v) l = Some v.
Proof. unfold StaticCell_get, StaticCell_set, load. now rewrite upd_same. Qed.

(** ** C1 *)

(** C1: after [B::init(v)], as long as nothing else writes [B]'s cell
    (the contract of [StaticCell::set]: it is called once), [get] on any
    [Inited<B>] value, whichever copy of the returned proof it is, yields
    the cell of [B] and that cell holds [v]. *)
Theorem init_get_any_copy (B : ty) (v : V) (m0 : mem) (post : list op) (m2 : mem) :
  run HOLDER (fst (init HOLDER B v m0)) post = Def m2 ->
  forallb (fun o => negb (writes_to HOLDER (HOLDER B) o)) post = true ->
  forall p' : Inited B,
    Inited_get HOLDER p' m2 = Def (HOLDER B) /\ load m2 (HOLDER B) = Some v.
Proof.
  intros Hr Hw p'.
  pose proof (run_frame post (HOLDER B) _ _ Hw Hr) as Hl.
  simpl in Hl. unfold StaticCell_set in Hl. rewrite upd_same in Hl.
  unfold Inited_get, StaticCell_get, load. now rewrite Hl.
Qed.

(** ** C3 *)

(** C3: a clone of an [Inited<B>] yields, from [get], the same reference
    (the same address, or the same undefined read) as the original. *)
Theorem clone_get_same_address (B : ty) (p : Inited B) (m : @mem V) :
  Inited_get HOLDER (Inited_clone p) m = Inited_get HOLDER p m.
Proof. destruct p. reflexivity. Qed.

(** ** C4 *)

(** C4: [init(v)] writes [v] into [B::HOLDER] (the rest of memory is the
    [set] update) and returns a fresh [Inited<B>]. *)
Theorem init_writes_holder (B : ty) (v : V) (m : mem) :
  fst (init HOLDER B v m) = StaticCell_set m (HOLDER B) v /\
  snd (init HOLDER B v m) = mk_Inited /\
  load (fst (init HOLDER B v m)) (HOLDER B) = Some v.
Proof.
  repeat split. unfold load, init, StaticCell_set; simpl. apply upd_same.
Qed.

(** ** C5 *)

(** C5: after [cell.set(v)], [cell.get()] is defined (the
    [assume_init_ref] undefined case is not reached), returns the cell and
    the cell holds [v]. *)
Theorem set_then_get (m : @mem V) (l : loc) (v : V) :
  StaticCell_get (StaticCell_set m l v) l <> UB /\
  StaticCell_get (StaticCell_set m l v) l = Def l /\
  load (StaticCell_set m l v) l = Some v.
Proof.
  unfold StaticCell_get, StaticCell_set, load. rewrite upd_same.
  repeat split; discriminate.
Qed.

(** ** C6 *)

(** C6: [new], [set] and [init] are total functions returning plain
    values; the only non-value outcome of the API is the undefined read of
    [StaticCell::get] exactly on an uninitialised cell (a contract
    violation, no error value), and [get] on the proof returned by [init]
    never reaches it. *)
Theorem no_error_results :
  StaticCell_new = (None : MaybeUninit (V:=V)) /\
  (forall (m : @mem V) l v, exists m', StaticCell_set m l v = m') /\
  (forall B v (m : @mem V), exists m' p, init HOLDER B v m = (m', p)) /\
  (forall (m : @mem V) l, StaticCell_get m l = UB <-> m l = None) /\
  (forall (m : @mem V) l, m l <> None -> StaticCell_get m l = Def l) /\
  (forall B v (m : @mem V),
      Inited_get HOLDER (snd (init HOLDER B v m)) (fst (init HOLDER B v m))
      = Def (HOLDER B)).
Proof.
  split; [reflexivity|]. split; [eauto|]. split.
  { intros B v m. exists (fst (init HOLDER B v m)), (snd (init HOLDER B v m)).
    reflexivity. }
  split; [|split].
  - intros m l. unfold StaticCell_get. destruct (m l); split; congruence.
  - intros m l H. unfold StaticCell_get. destruct (m l); congruence.
  - intros B v m. unfold Inited_get, StaticCell_get, init, StaticCell_set; simpl.
    now rewrite upd_same.
Qed.

(** ** C8 *)

(** C8: once a cell holds a value, no sequence of API operations brings it
    back to the uninitialised state. *)
Theorem initialized_forever (ops : list (@op V)) : forall (m m' : mem) (l : loc),
  m l <> None -> run HOLDER m ops = Def m' -> m' l <> None.
Proof.
  induction ops as [|o rest IH]; simpl; intros m m' l Hl Hr.
  - congruence.
  - destruct (step HOLDER m o) as [m1|] eqn:Hs; [|discriminate].
    exact (IH m1 m' l (step_keeps_init m m1 o l Hl Hs) Hr).
Qed.

(** ** C9 *)

(** C9: [set] has no once-only check: [set(v1); set(v2); get()] yields the
    cell holding [v2]. *)
Theorem set_twice_last_wins (m : @mem V) (l : loc) (v1 v2 : V) :
  StaticCell_get (StaticCell_set (StaticCell_set m l v1) l v2) l = Def l /\
  load (StaticCell_set (StaticCell_set m l v1) l v2) l = Some v2.
Proof. unfold StaticCell_get, StaticCell_set, load. now rewrite upd_same. Qed.

(** ** C10 *)

(** C10: [Inited::get] does not depend on the proof value it is called on,
    it is [B::HOLDER.get()], and any sequence of [get] calls leaves memory
    unchanged. *)
Theorem gets_are_pure (B : ty) (p q : Inited B) (m : @mem V) :
  Inited_get HOLDER p m = Inited_get HOLDER q m /\
  Inited_get HOLDER p m = StaticCell_get m (HOLDER B) /\
  (forall ops m', forallb is_get ops = true -> run HOLDER m ops = Def m' -> m' = m).
Proof.
  split; [reflexivity|]. split; [reflexivity|].
  intros ops. revert m. induction ops as [|o rest IH]; simpl; intros m m' Hg Hr.
  - congruence.
  - apply andb_true_iff in Hg as [Ho Hrest].
    destruct (step HOLDER m o) as [m1|] eqn:Hs; [|discriminate].
    rewrite (step_get_pure m m1 o Ho Hs) in Hr. exact (IH m m' Hrest Hr).
Qed.

End Proofs.

(** ** C2 *)
Section Coherence.

Context {V : Type}.

Lemma nodupb_dup (x : nat) (l1 l2 : list nat) :
  In x l2 -> nodupb (l1 ++ x :: l2) = false.
Proof.
  intros Hin. induction l1 as [|y r IH]; simpl.
  - assert (existsb (Nat.eqb x) l2 = true) as ->.
    { apply existsb_exists. exists x. split; [exact Hin|apply Nat.eqb_refl]. }
    reflexivity.
  - rewrite IH. apply andb_false_r.
Qed.

Lemma impl_tys_app (a b : list (@item V)) : impl_tys (a ++ b) = impl_tys a ++ impl_tys b.
Proof. apply flat_map_app. Qed.

Lemma init_calls_app (a b : list (@item V)) : init_calls (a ++ b) = init_calls a ++ init_calls b.
Proof. apply flat_map_app. Qed.

(** Two [B::init] call sites for one [B] are accepted by the compiler:
    [init] attaches no implementation, so coherence never sees them. *)
Theorem two_init_sites_compile (B : ty) (h : loc) (v1 v2 : V) :
  compiles [ImplStaticInit B h; CallInit B v1; CallInit B v2] = true.
Proof. unfold compiles. cbn -[Nat.eqb]. now rewrite Nat.eqb_refl. Qed.

(** C2 (as the code has it): a second [impl StaticInit for B] anywhere in
    the crate is rejected; any number of extra [B::init(..)] call sites in
    a crate that compiles, with an impl for [B], still compiles; and at
    run time each [B::init(v)] overwrites [B::HOLDER], so after any series
    of init calls for [B] the cell holds the last value and [get] on any
    [Inited<B>] yields that cell.  Calling [init] at most once is the
    [# Safety] contract of the unsafe [init]. *)
Theorem only_duplicate_impl_rejected :
  (forall (B : ty) (h h' : loc) (pre mid post : list (@item V)),
      compiles (pre ++ ImplStaticInit B h :: mid ++ ImplStaticInit B h' :: post) = false) /\
  (forall (items : list (@item V)) (B : ty) (vs : list V),
      compiles items = true -> In B (impl_tys items) ->
      compiles (items ++ map (CallInit B) vs) = true) /\
  (forall (HOLDER : ty -> loc) (B : ty) (vs : list V) (v : V) (m : @mem V),
      exists m', run HOLDER m (map (OInit B) (vs ++ [v])) = Def m' /\
        load m' (HOLDER B) = Some v /\
        forall p : Inited B, Inited_get HOLDER p m' = Def (HOLDER B)).
Proof.
  split; [|split].
  - intros B h h' pre mid post. unfold compiles.
    rewrite impl_tys_app. simpl. rewrite impl_tys_app. simpl.
    rewrite nodupb_dup; [reflexivity|]. apply in_or_app. right. left. reflexivity.
  - intros items B vs Hc Hin. unfold compiles in *.
    apply andb_true_iff in Hc as [Hn Hf].
    assert (impl_tys (map (@CallInit V B) vs) = []) as Hi.
    { induction vs; simpl; auto. }
    rewrite impl_tys_app, Hi, app_nil_r, init_calls_app, Hn, forallb_app.
    apply andb_true_iff. split; [reflexivity|].
    apply andb_true_iff. split; [exact Hf|].
    apply forallb_forall. intros x Hx.
    assert (x = B) as ->.
    { clear - Hx. induction vs as [|a r IH]; simpl in Hx; [contradiction|].
      destruct Hx as [<-|Hx]; auto. }
    apply existsb_exists. exists B. split; [exact Hin|apply Nat.eqb_refl].
  - intros HOLDER B vs v. induction vs as [|a r IH]; intros m.
    + exists (StaticCell_set m (HOLDER B) v). split; [reflexivity|].
      unfold load, Inited_get, StaticCell_get, StaticCell_set. rewrite upd_same.
      split; [reflexivity|intros _; reflexivity].
    + exact (IH (fst (init HOLDER B a m))).
Qed.

End Coherence.

(** ** Further code of [lib.rs] *)
Section Extras.

Context {V : Type}.
Variable HOLDER : ty -> loc.

(** The test [it_works]: [t] is a fresh leaked [StaticCell<usize>] read
    with [t.get()], then [A::init(A)] and [inited.get()]; printing
    [A::HOLDER] only takes an address and touches no cell. *)
Definition it_works_ops (t : loc) (A : ty) (a : V) : list (@op V) :=
  [OCellGet t; OInit A a; OProofGet A].

(** Straight-line code that only uses the safe accessor: [Inited::get] on
    an [Inited<B>] needs a proof of [B] in hand, i.e. one returned by an
    earlier [init] of [B] ([minted]); the unsafe [StaticCell::get] is not
    used; [set] and [init] may occur anywhere. *)
Fixpoint proofs_wf (minted : list ty) (ops : list (@op V)) : bool :=
  match ops with
  | [] => true
  | OSet _ _ :: r => proofs_wf minted r
  | OInit B _ :: r => proofs_wf (B :: minted) r
  | OProofGet B :: r => existsb (Nat.eqb B) minted && proofs_wf minted r
  | OCellGet _ :: r => false
  end.

(** The crate's own test reads its fresh cell [t] before any [set]: the
    run is undefined from its first operation, whatever the holders. *)
Theorem it_works_undefined (m : @mem V) (t : loc) (A : ty) (a : V) :
  m t = None -> run HOLDER m (it_works_ops t A a) = UB.
Proof. intros Ht. simpl. unfold StaticCell_get. now rewrite Ht. Qed.

(** Safe use never reaches undefined behaviour: if every proof in hand
    names a guarded type whose cell holds a value, a program that calls
    [Inited::get] only on proofs it holds or obtains from [init] (and
    never the unsafe [StaticCell::get]) runs to completion. *)
Theorem safe_proof_gets_defined (ops : list (@op V)) :
  forall (m : mem) (minted : list ty),
  (forall B, In B minted -> m (HOLDER B) <> None) ->
  proofs_wf minted ops = true ->
  run HOLDER m ops <> UB.
Proof.
  induction ops as [|o r IH]; intros m minted Hinv Hwf; simpl; [discriminate|].
  destruct o as [l v|B v|l|B]; simpl in Hwf.
  - apply (IH _ minted); [|exact Hwf].
    intros B HB. apply (step_keeps_init HOLDER m _ (OSet l v)); [now apply Hinv|reflexivity].
  - apply (IH _ (B :: minted)); [|exact Hwf].
    intros B' [<-|HB'].
    + simpl. unfold StaticCell_set. rewrite upd_same. discriminate.
    + apply (step_keeps_init HOLDER m _ (OInit B v)); [now apply Hinv|reflexivity].
  - discriminate.
  - apply andb_true_iff in Hwf as [Hin Hwf].
    apply existsb_exists in Hin as (B' & HB' & Heq). apply Nat.eqb_eq in Heq; subst B'.
    unfold step, Inited_get, StaticCell_get.
    destruct (m (HOLDER B)) eqn:Hm; [|exfalso; exact (Hinv B HB' Hm)].
    exact (IH m minted Hinv Hwf).
Qed.

(** [init] of [B] writes only [B::HOLDER]: every other static keeps its
    content. *)
Theorem init_frame (B : ty) (v : V) (m : mem) (l : loc) :
  l <> HOLDER B -> fst (init HOLDER B v m) l = m l.
Proof. intros H. simpl. unfold StaticCell_set. now apply upd_other. Qed.

(** Nothing ties a cell to one guarded type: when two types share a
    [HOLDER], initialising the second overwrites the first, and the first
    type's proof then reads the second value. *)
Theorem shared_holder_overwrites (B B' : ty) (v w : V) (m : mem) :
  HOLDER B = HOLDER B' ->
  let m2 := fst (init HOLDER B' w (fst (init HOLDER B v m))) in
  Inited_get HOLDER (snd (init HOLDER B v m)) m2 = Def (HOLDER B) /\
  load m2 (HOLDER B) = Some w.
Proof.
  intros H. simpl. unfold Inited_get, StaticCell_get, StaticCell_set, load.
  rewrite H, upd_same. split; reflexivity.
Qed.

End Extras.

(** ** Concrete instances *)

Definition holder_ex (B : ty) : loc := B + 10.

Lemma two_init_sites_counterexample :
  compiles [ImplStaticInit 0 10; CallInit 0 1; CallInit 0 2] = true /\
  run holder_ex empty_mem [OInit 0 1; OInit 0 2] =
    Def (StaticCell_set (StaticCell_set empty_mem 10 1) 10 2).
Proof. split; reflexivity. Qed.

Definition mem_ex : @mem nat :=
  StaticCell_set (fst (init holder_ex 0 42 empty_mem)) 3 7.

Lemma init_get_any_copy_witness :
  (run holder_ex (fst (init holder_ex 0 42 empty_mem))
     [OProofGet 0; OCellGet 10; OSet 3 7] = Def mem_ex /\
   forallb (fun o => negb (writes_to holder_ex (holder_ex 0) o))
     [OProofGet 0; OCellGet 10; OSet 3 7] = true) /\
  (Inited_get holder_ex (Inited_clone (snd (init holder_ex 0 42 empty_mem))) mem_ex
     = Def (holder_ex 0) /\ load mem_ex (holder_ex 0) = Some 42).
Proof.
  assert (H1 : run holder_ex (fst (init holder_ex 0 42 empty_mem))
                 [OProofGet 0; OCellGet 10; OSet 3 7] = Def mem_ex) by reflexivity.
  assert (H2 : forallb (fun o => negb (writes_to holder_ex (holder_ex 0) o))
                 [OProofGet 0; OCellGet 10; OSet 3 7] = true) by reflexivity.
  split; [split; assumption|].
  exact (init_get_any_copy holder_ex 0 42 empty_mem _ mem_ex H1 H2 _).
Defined.

Lemma no_error_results_witness :
  load mem_ex 10 <> None /\ StaticCell_get mem_ex 10 = Def 10.
Proof.
  assert (H : mem_ex 10 <> None) by (vm_compute; discriminate).
  split; [exact H|].
  destruct (no_error_results (V:=nat) holder_ex) as (_ & _ & _ & _ & Hd & _).
  exact (Hd mem_ex 10 H).
Defined.

Lemma initialized_forever_witness :
  mem_ex 10 <> None /\
  run holder_ex mem_ex [OSet 10 5; OCellGet 3; OInit 1 9] =
    Def (fst (init holder_ex 1 9 (StaticCell_set mem_ex 10 5))) /\
  fst (init holder_ex 1 9 (StaticCell_set mem_ex 10 5)) 10 <> None.
Proof.
  assert (H1 : mem_ex 10 <> None) by (vm_compute; discriminate).
  assert (H2 : run holder_ex mem_ex [OSet 10 5; OCellGet 3; OInit 1 9] =
                 Def (fst (init holder_ex 1 9 (StaticCell_set mem_ex 10 5)))) by reflexivity.
  split; [exact H1|]. split; [exact H2|].
  exact (initialized_forever holder_ex _ _ _ 10 H1 H2).
Defined.

Lemma gets_are_pure_witness :
  forallb (@is_get nat) [OProofGet 0; OCellGet 3; OCellGet 10] = true /\
  run holder_ex mem_ex [OProofGet 0; OCellGet 3; OCellGet 10] = Def mem_ex /\
  mem_ex = mem_ex.
Proof.
  assert (H1 : forallb (@is_get nat) [OProofGet 0; OCellGet 3; OCellGet 10] = true)
    by reflexivity.
  assert (H2 : run holder_ex mem_ex [OProofGet 0; OCellGet 3; OCellGet 10] = Def mem_ex)
    by reflexivity.
  split; [exact H1|]. split; [exact H2|].
  destruct (gets_are_pure holder_ex 0 mk_Inited mk_Inited mem_ex) as (_ & _ & Hp).
  exact (Hp _ _ H1 H2).
Defined.

Lemma only_duplicate_impl_rejected_witness :
  compiles [ImplStaticInit 0 10; CallInit 0 1] = true /\
  In 0 (impl_tys [ImplStaticInit 0 10; CallInit 0 1]) /\
  compiles ([ImplStaticInit 0 10; CallInit 0 1] ++ map (CallInit 0) [2; 3]) = true.
Proof.
  assert (H1 : compiles [ImplStaticInit 0 10; CallInit 0 1] = true) by reflexivity.
  assert (H2 : In 0 (impl_tys [ImplStaticInit 0 10; @CallInit nat 0 1])) by (simpl; auto).
  split; [exact H1|]. split; [exact H2|].
  destruct (@only_duplicate_impl_rejected nat) as (_ & Hc & _).
  exact (Hc _ 0 [2; 3] H1 H2).
Defined.

Lemma it_works_undefined_witness :
  (@empty_mem nat) 20 = None /\ run holder_ex empty_mem (it_works_ops 20 0 1) = UB.
Proof.
  assert (H : (@empty_mem nat) 20 = None) by reflexivity.
  split; [exact H|]. exact (it_works_undefined holder_ex empty_mem 20 0 1 H).
Defined.

Lemma safe_proof_gets_defined_witness :
  (forall B, In B [0] -> mem_ex (holder_ex B) <> None) /\
  proofs_wf [0] [OProofGet 0; OInit 1 5; OProofGet 1; OSet 4 2; OProofGet 0] = true /\
  run holder_ex mem_ex [OProofGet 0; OInit 1 5; OProofGet 1; OSet 4 2; OProofGet 0] <> UB.
Proof.
  assert (H1 : forall B, In B [0] -> mem_ex (holder_ex B) <> None).
  { intros B [<-|[]]. vm_compute. discriminate. }
  assert (H2 : proofs_wf [0] [OProofGet 0; OInit 1 5; OProofGet 1; OSet 4 2; @OProofGet nat 0]
               = true) by reflexivity.
  split; [exact H1|]. split; [exact H2|].
  exact (safe_proof_gets_defined holder_ex _ mem_ex [0] H1 H2).
Defined.

Lemma init_frame_witness :
  3 <> holder_ex 0 /\ fst (init holder_ex 0 42 mem_ex) 3 = mem_ex 3.
Proof.
  assert (H : 3 <> holder_ex 0) by (unfold holder_ex; lia).
  split; [exact H|]. exact (init_frame holder_ex 0 42 mem_ex 3 H).
Defined.

Definition holder_shared (B : ty) : loc := 10.

Lemma shared_holder_overwrites_witness :
  holder_shared 0 = holder_shared 1 /\
  load (fst (init holder_shared 1 7 (fst (init holder_shared 0 42 empty_mem))))
       (holder_shared 0) = Some 7.
Proof.
  assert (H : holder_shared 0 = holder_shared 1) by reflexivity.
  split; [exact H|].
  exact (proj2 (shared_holder_overwrites holder_shared 0 1 42 7 empty_mem H)).
Defined.

End StaticOnce.
